(** * pnpjs: the OData entity parser, literal path segments, queryable
      clones, file operations, canvas ordering helpers and batches

    The definitions follow the TypeScript sources, function by function:
    - [odataUrlFrom] and [SPODataEntityParserImpl] (module
      [packages/sp/src/odata.ts]; in the sources it is the second part of
      [src/packages/sp/src/site-designs/types.ts], lines 271-360);
    - [SiteGroups.getByName] ([src/unnamed/part_004]), [_Files.getByName]
      ([src/packages/sp/src/files/types.ts]), [_SiteUsers.getByLoginName] and
      [_SiteUsers.removeByLoginName]
      ([src/packages/sp/src/site-users/types.ts]);
    - [_File.checkin], [deny], [publish], [unpublish], [setContentChunked],
      [startUpload], [continueUpload] and [finishUpload]
      ([src/packages/sp/src/files/types.ts]);
    - [getNextOrder], [reindex], [CanvasColumn] and [CanvasSection.addColumn]
      ([src/packages/sp/src/clientsidepages.ts]).

    The queryable base class ([clone]) and the batch coordinator are not
    among the sources; they are modelled from the specification and marked
    as such.

    JavaScript numbers are modelled by [Z] (the numbers handled here are
    sizes, offsets and 1-based orders), strings by [string] (one character
    per code unit, [length] counting them), objects by the finite map of
    their own properties, and
    objects that are mutated in place by a store indexed by locations. The
    first part of the file holds the definitions, the second the
    properties. *)

From Stdlib Require Import ZArith String Ascii List Bool Lia.
From stdpp Require Import gmap strings list fin_maps pretty.

#[local] Set Warnings "-register-all".
#[local] Open Scope string_scope.

(** ** Results of calls that may throw *)

Inductive error : Type :=
  | TypeError (msg : string)
  | Error (msg : string).

Inductive outcome (A : Type) : Type :=
  | Ret (a : A)
  | Throw (e : error).
Arguments Ret {A} a.
Arguments Throw {A} e.

Definition outcome_bind {A B} (x : outcome A) (f : A → outcome B) : outcome B :=
  match x with
  | Ret a => f a
  | Throw e => Throw e
  end.

(** ** JavaScript values, as JSON.parse and the wrappers produce them *)

Inductive value : Type :=
  | VUndefined
  | VNull
  | VBool (b : bool)
  | VNum (n : Z)
  | VStr (s : string)
  | VArr (elems : list value)
  | VObj (props : gmap string value).

(** An object is the finite map of its own properties. *)
Abbreviation object := (gmap string value).

(** [hOP(o, p)] of [@pnp/common]: [o] has an own property named [p]
    ([Object.prototype.hasOwnProperty.call(o, p)]). *)
Definition hOP (o : object) (p : string) : bool :=
  match o !! p with
  | Some _ => true
  | None => false
  end.

(** [o[p]]: reading a property that is absent gives [undefined]. *)
Definition prop (o : object) (p : string) : value :=
  default VUndefined (o !! p).

(** [v === s] for a string literal [s]. *)
Definition strict_eq_str (v : value) (s : string) : bool :=
  match v with
  | VStr t => String.eqb t s
  | _ => false
  end.

(** [v.p]: member access on an arbitrary value; [null] and [undefined] have
    no properties and the access throws, a primitive or an array has no own
    property of a non-index name. *)
Definition member (v : value) (p : string) : outcome value :=
  match v with
  | VObj o => Ret (prop o p)
  | VUndefined => Throw (TypeError "Cannot read properties of undefined")
  | VNull => Throw (TypeError "Cannot read properties of null")
  | VBool _ | VNum _ | VStr _ | VArr _ => Ret VUndefined
  end.

(** ** Helpers shared by the wrappers *)

(** A path without the slash it may start with and the slash it may end
    with. *)
Fixpoint drop_trailing_slash (s : string) : string :=
  match s with
  | EmptyString => EmptyString
  | String c EmptyString => if Ascii.eqb c "/" then EmptyString else s
  | String c rest => String c (drop_trailing_slash rest)
  end.

Definition trim_slashes (s : string) : string :=
  drop_trailing_slash
    (match s with
     | String c rest => if Ascii.eqb c "/" then rest else s
     | EmptyString => s
     end).

Definition join_paths (paths : list string) : string :=
  String.concat "/" (map trim_slashes paths).

(** The paths that take part: [undefined], [null] and the empty string are
    skipped; anything else that is not a string has no [replace] method. *)
Fixpoint path_strings (paths : list value) : outcome (list string) :=
  match paths with
  | [] => Ret []
  | VUndefined :: rest | VNull :: rest | VStr EmptyString :: rest =>
      path_strings rest
  | VStr s :: rest =>
      outcome_bind (path_strings rest) (fun l => Ret (s :: l))
  | _ :: _ => Throw (TypeError "path.replace is not a function")
  end.

(** Modelled from the spec: [combine] of [@pnp/common] is not among the
    sources. Section 4.1 describes it as joining the parent URL and the path
    segment with duplicate slashes collapsed: empty parts are skipped, each
    part loses a slash at either end, and the parts are joined by one
    slash. *)
Definition combine_paths (paths : list value) : outcome string :=
  outcome_bind (path_strings paths) (fun l => Ret (join_paths l)).

(** Modelled from the spec: [combine] at two strings. *)
Definition combine2 (base path : string) : string :=
  join_paths (filter (fun s => negb (String.eqb s "")) [base; path]).

(** [encodeURIComponent] of the language, on ASCII text: every character
    outside [A-Z a-z 0-9 - _ . ! ~ * ' ( )] is replaced by the percent escape
    of its code. (Beyond ASCII the language escapes the UTF-8 bytes of the
    character; the examples stay within ASCII.) *)
Definition is_alnum (c : ascii) : bool :=
  let n := nat_of_ascii c in
  ((48 <=? n) && (n <=? 57) || (65 <=? n) && (n <=? 90)
   || (97 <=? n) && (n <=? 122))%nat.

Definition occurs_in (c : ascii) (set : string) : bool :=
  existsb (Ascii.eqb c) (list_ascii_of_string set).

Definition uri_unreserved (c : ascii) : bool :=
  is_alnum c || occurs_in c "-_.!~*'()".

Definition hex_digit (n : nat) : ascii :=
  match get n "0123456789ABCDEF" with
  | Some c => c
  | None => "0"%char
  end.

Definition percent_escape (c : ascii) : string :=
  let n := nat_of_ascii c in
  String "%" (String (hex_digit (n / 16)) (String (hex_digit (n mod 16)) "")).

Fixpoint encodeURIComponent (s : string) : string :=
  match s with
  | EmptyString => EmptyString
  | String c rest =>
      (if uri_unreserved c then String c "" else percent_escape c)
      ++ encodeURIComponent rest
  end.

(** ** The OData entity parser ([packages/sp/src/odata.ts]) *)

Module OData.

(** The logger: [Logger.write(message, level)] appends an entry. *)
Inductive LogLevel : Type := Verbose | Info | Warning | LogError | Off.

Record LogEntry : Type := { message : string; level : LogLevel }.

(** Computations that may throw and that write to the logger. *)
Definition M (A : Type) : Type := (outcome A * list LogEntry)%type.

Definition ret {A} (a : A) : M A := (Ret a, []).

Definition bind {A B} (x : M A) (f : A → M B) : M B :=
  match x with
  | (Ret a, w) => let '(r, w') := f a in (r, (w ++ w')%list)
  | (Throw e, w) => (Throw e, w)
  end.

Definition lift {A} (x : outcome A) : M A := (x, []).

Definition Logger_write (msg : string) (l : LogLevel) : M unit :=
  (Ret tt, [{| message := msg; level := l |}]).

Notation "'let!' x ':=' c 'in' k" := (bind c (fun x => k))
  (at level 10, x name, c at level 100, k at level 200).
Notation "'run!' c 'in' k" := (bind c (fun _ => k))
  (at level 10, c at level 100, k at level 200).

Definition no_uri_warning : string :=
  "No uri information found in ODataEntity parsing, chaining will fail for this object.".

(** Modelled from the spec: [assign] of [@pnp/common] is not among the
    sources. Section 4.2: the JSON properties are shallow-merged onto the
    node. [assign(target, source)] writes the own properties of [source] onto
    [target] and returns it; the union of finite maps is left-biased, so the
    source's values win. *)
Definition assign (target source : object) : object := source ∪ target.

Definition s0 : string := "odata.type".
Definition s1 : string := "odata.editLink".
Definition s2 : string := "__metadata".
Definition s3 : string := "odata.metadata".

Section Parser.

(** [combine(...paths)] and [extractWebUrl(candidateUrl)] are imported from
    [@pnp/common] and [./utils/extractweburl]; at run time they receive
    whatever the payload holds. *)
Variable combine : list value → outcome string.
Variable extractWebUrl : value → outcome string.

(** The node constructor the parser was created with
    ([ISharePointQueryableConstructor]): [new factory(baseUrl, path)] gives
    the own properties of the new node, or throws. *)
Variable factory : string → value → outcome object.

(** [ODataParser.parse] of the base class: the decoded payload. *)
Variable Response : Type.
Variable super_parse : Response → M object.

(** The list [parts] that the branches of [odataUrlFrom] fill. *)
Definition url_parts (candidate : object) : outcome (list value) :=
  if hOP candidate s0 && strict_eq_str (prop candidate s0) "SP.Web" then
    (* webs return an absolute url in the editLink *)
    if hOP candidate s1 then
      Ret [prop candidate s1]
    else if hOP candidate s2 then
      (* verbose, which has an absolute uri *)
      outcome_bind (member (prop candidate s2) "uri") (fun u => Ret [u])
    else Ret []
  else
    if hOP candidate s3 && hOP candidate s1 then
      (* minimal metadata (default) *)
      outcome_bind (extractWebUrl (prop candidate s3))
        (fun w => Ret [VStr w; VStr "_api"; prop candidate s1])
    else if hOP candidate s1 then
      Ret [VStr "_api"; prop candidate s1]
    else if hOP candidate s2 then
      (* verbose, which has an absolute uri *)
      outcome_bind (member (prop candidate s2) "uri") (fun u => Ret [u])
    else Ret [].

Definition odataUrlFrom (candidate : object) : M string :=
  let! parts := lift (url_parts candidate) in
  if (length parts <? 1)%nat then
    run! Logger_write no_uri_warning Warning in
    ret ""
  else
    lift (combine parts).

(** [SPODataEntityParserImpl.hydrate]. *)
Definition hydrate (d : object) : M object :=
  let! url := odataUrlFrom d in
  let! o := lift (factory url VNull) in
  ret (assign o d).

(** [SPODataEntityParserImpl.parse]. *)
Definition parse (r : Response) : M object :=
  let! d := super_parse r in
  let! url := odataUrlFrom d in
  let! o := lift (factory url VNull) in
  ret (assign o d).

(** A payload is a web when its [odata.type] is [SP.Web]. *)
Definition is_web (d : object) : bool :=
  hOP d s0 && strict_eq_str (prop d s0) "SP.Web".

(** The three fields the specification calls OData identity fields. *)
Definition exposes_identity (d : object) : bool :=
  hOP d "odata.editLink" || hOP d "__metadata" || hOP d "odata.id".

(** The entry [odataUrlFrom] logs when it finds no uri information. *)
Definition no_uri_entry : LogEntry :=
  {| message := no_uri_warning; level := Warning |}.

(** The own properties of a freshly constructed node ([_url], [_parentUrl],
    [_query], ...) are not OData annotations. *)
Definition node_props_apart_from_odata : Prop :=
  ∀ url path o k,
    factory url path = Ret o → k ∈ [s0; s1; s2; s3] → o !! k = None.

End Parser.

(** *** Concrete collaborators and payloads *)

(** An [extractWebUrl] for the examples: the part of an absolute URL that
    precedes its [_api/] marker, the whole URL when it has none. *)
Definition web_url_of (candidateUrl : value) : outcome string :=
  match candidateUrl with
  | VUndefined | VNull => Ret ""
  | VStr s =>
      match index 0 "_api/" s with
      | Some i => Ret (substring 0 i s)
      | None => Ret s
      end
  | _ => Throw (TypeError "candidateUrl.indexOf is not a function")
  end.

(** A node constructor for the examples. It keeps the URL it is given, as
    the constructors of the sources do: [ClientSidePage.create] builds
    [new ClientSidePage('', pageInitData)] and goes on to use the page, and
    [_SiteDesigns] passes its base URL on unchecked. The own properties are
    those of the Queryable record of the data model. *)
Definition SharePointQueryable (baseUrl : string) (path : value)
    : outcome object :=
  outcome_bind (combine_paths [VStr baseUrl; path]) (fun url =>
    Ret (<["_url" := VStr url]>
         (<["_parentUrl" := VStr baseUrl]>
          (<["_query" := VObj ∅]> ∅)))).

(** [isUrlAbsolute]: the URL starts with a scheme. *)
Definition isUrlAbsolute (url : string) : bool :=
  String.prefix "https://" url || String.prefix "http://" url.

Definition list_uri : string :=
  "https://contoso.sharepoint.com/sites/dev/_api/Web/Lists(guid'51a0c1f3')".

(** A list as the server sends it with minimal metadata. *)
Definition minimal_payload : object :=
  <["odata.metadata" :=
      VStr "https://contoso.sharepoint.com/sites/dev/_api/$metadata#SP.ApiData.Lists/@Element"]>
  (<["odata.type" := VStr "SP.List"]>
   (<["odata.id" := VStr list_uri]>
    (<["odata.editLink" := VStr "Web/Lists(guid'51a0c1f3')"]>
     (<["Title" := VStr "Documents"]> ∅)))).

(** The same list with verbose metadata. *)
Definition verbose_payload : object :=
  <["__metadata" :=
      VObj (<["uri" := VStr list_uri]> (<["type" := VStr "SP.List"]> ∅))]>
  (<["Title" := VStr "Documents"]> ∅).

(** A payload whose only identity field is [odata.id]. *)
Definition id_only_payload : object :=
  <["odata.id" := VStr list_uri]> (<["Title" := VStr "Documents"]> ∅).

(** A payload with [odata.id] and [odata.editLink] and nothing else: the
    specification's description of the minimal convention. *)
Definition id_editLink_payload : object :=
  <["odata.id" := VStr list_uri]>
  (<["odata.editLink" := VStr "Web/Lists(guid'51a0c1f3')"]> ∅).

(** A payload without any OData annotation. *)
Definition plain_payload : object := <["Title" := VStr "Documents"]> ∅.

(** The node [SharePointQueryable] builds for the empty URL. *)
Definition empty_url_node : object :=
  <["_url" := VStr ""]>
  (<["_parentUrl" := VStr ""]> (<["_query" := VObj ∅]> ∅)).

(** The list of the examples, hydrated. *)
Definition hydrated_list : object :=
  assign
    (<["_url" := VStr list_uri]>
     (<["_parentUrl" := VStr list_uri]> (<["_query" := VObj ∅]> ∅)))
    minimal_payload.

End OData.

(** ** Queryable nodes and their query maps *)

Module Queryable.

(** Nodes and the [Map] objects that hold their query parameters live in
    one heap: a node refers to its query map by location, so that two nodes
    holding the same location share the map. *)
Abbreviation loc := nat.

Inductive heap_object : Type :=
  | Node (url parentUrl : string) (query : loc)
  | QueryMap (entries : gmap string string).

Abbreviation heap := (gmap loc heap_object).

(** The entries of the query map at a location. *)
Definition query_entries (h : heap) (q : loc) : gmap string string :=
  match h !! q with
  | Some (QueryMap m) => m
  | _ => ∅
  end.

(** [node.toUrl()] and the entries of [node.query]. *)
Definition toUrl (h : heap) (node : loc) : option string :=
  match h !! node with
  | Some (Node u _ _) => Some u
  | _ => None
  end.

Definition query_of (h : heap) (node : loc) : option (gmap string string) :=
  match h !! node with
  | Some (Node _ _ q) => Some (query_entries h q)
  | _ => None
  end.

(** A node of the heap whose query map is allocated. *)
Definition node_allocated (h : heap) (node : loc) : Prop :=
  match h !! node with
  | Some (Node _ _ q) => is_Some (h !! q)
  | _ => False
  end.

(** Modelled from the spec: [clone] of the queryable base class is not among
    the sources. Section 4.1: [clone(factory, pathSegment, inheritQuery=true)]
    gives a new node whose URL is [combine(parentUrl, pathSegment)] and whose
    query parameters are a shallow copy of the parent's, in a map of its own
    (empty when the query is not inherited). *)
Definition clone (this : loc) (pathSegment : string) (inheritQuery : bool)
    (h : heap) : option (loc * heap) :=
  match h !! this with
  | Some (Node u _ q) =>
      let lq := fresh (dom h) in
      let entries := if inheritQuery then query_entries h q else ∅ in
      let h1 := <[lq := QueryMap entries]> h in
      let ln := fresh (dom h1) in
      Some (ln, <[ln := Node (combine2 u pathSegment) u lq]> h1)
  | _ => None
  end.

(** [node.query.set(key, value)]: [Map.set] updates the map the node
    refers to in place. *)
Definition query_set (node : loc) (key val : string) (h : heap)
    : option heap :=
  match h !! node with
  | Some (Node _ _ q) =>
      Some (<[q := QueryMap (<[key := val]> (query_entries h q))]> h)
  | _ => None
  end.

(** What a request carries: the method, and the node's URL and query as
    they are when the request is made. *)
Record Request : Type :=
  { method : string; target : string; params : gmap string string }.

(** Modelled from the spec: [spPost] of [../operations] is not among the
    sources. Section 4.3: invoking a node creates one request from the URL
    and the query the node has at that moment. *)
Definition spPost (node : loc) (h : heap) : option Request :=
  match toUrl h node, query_of h node with
  | Some u, Some q => Some {| method := "POST"; target := u; params := q |}
  | _, _ => None
  end.

(** A heap for the examples: the site users collection with a [$select]. *)
Definition siteusers_heap : heap :=
  <[0 := QueryMap (<["$select" := "Title"]> ∅)]>
  (<[1 := Node "https://contoso.sharepoint.com/_api/web/siteusers"
               "https://contoso.sharepoint.com/_api/web" 0]> ∅).

(** The same heap after [clone(SiteUsers, 'removeByLoginName(@v)')] ... *)
Definition cloned_heap : heap :=
  <[3 := Node
           "https://contoso.sharepoint.com/_api/web/siteusers/removeByLoginName(@v)"
           "https://contoso.sharepoint.com/_api/web/siteusers" 2]>
  (<[2 := QueryMap (<["$select" := "Title"]> ∅)]> siteusers_heap).

(** ... and after [query.set('@v', ...)] on the clone. *)
Definition updated_heap : heap :=
  <[2 := QueryMap (<["@v" := "'i%3A0%23.f%7Cmembership%7Cadele'"]>
                   (<["$select" := "Title"]> ∅))]> cloned_heap.

End Queryable.

(** ** Path segments built from OData literals *)

(** A segment [name('literal')] or [('literal')] is well formed when the
    text between the delimiting quotes holds only characters a URL path may
    carry as they are, percent escapes included; a quote inside the literal
    is not one of them. *)
Definition literal_char_ok (c : ascii) : bool :=
  is_alnum c || occurs_in c "-_.~!$&()*+,;=:@%".

Fixpoint all_chars (ok : ascii → bool) (s : string) : bool :=
  match s with
  | EmptyString => true
  | String c rest => ok c && all_chars ok rest
  end.

Definition escaped_segment (seg : string) : bool :=
  match index 0 "('" seg with
  | Some i =>
      let tail := substring (i + 2) (String.length seg - (i + 2)) seg in
      let n := String.length tail in
      (2 <=? n)%nat
      && String.eqb (substring (n - 2) 2 tail) "')"
      && all_chars literal_char_ok (substring 0 (n - 2) tail)
  | None => false
  end.

Module SiteGroups.

(** [SiteGroups.getByName]: the path given to [new SiteGroup(this, path)]. *)
Definition getByName (groupName : string) : string :=
  "getByName('" ++ groupName ++ "')".

End SiteGroups.

Module Files.

(** [_Files.getByName]: the text appended by [File(this).concat(...)]. *)
Definition getByName (name : string) : string := "('" ++ name ++ "')".

(** *** Requests and progress reports of a [_File] *)

(** The content of a [Blob], byte by byte. *)
Abbreviation blob := (list Byte.byte).

Inductive Stage : Type := starting | continue | finishing.

Record IFileUploadProgressData : Type :=
  { uploadId : string;
    stage : Stage;
    blockNumber : Z;
    totalBlocks : Z;
    chunkSize : Z;
    currentPointer : Z;
    fileSize : Z }.

(** What a [_File] does to the outside: [spPost(this.clone(File, path,
    inheritQuery), { body })] and calls of the progress callback. *)
Inductive event : Type :=
  | Post (path : string) (inheritQuery : bool) (body : option blob)
  | Progress (data : IFileUploadProgressData).

(** Computations that may throw and that act on the outside. *)
Definition F (A : Type) : Type := list event → outcome A * list event.

Definition ret {A} (a : A) : F A := fun tr => (Ret a, tr).

Definition throw {A} (e : error) : F A := fun tr => (Throw e, tr).

Definition bind {A B} (x : F A) (f : A → F B) : F B :=
  fun tr =>
    match x tr with
    | (Ret a, tr') => f a tr'
    | (Throw e, tr') => (Throw e, tr')
    end.

Notation "'let!' x ':=' c 'in' k" := (bind c (fun x => k))
  (at level 10, x name, c at level 100, k at level 200).
Notation "'run!' c 'in' k" := (bind c (fun _ => k))
  (at level 10, c at level 100, k at level 200).

(** The requests of a trace, and the bodies they carried. *)
Definition is_post (e : event) : bool :=
  match e with
  | Post _ _ _ => true
  | Progress _ => false
  end.

Definition posts (tr : list event) : list event := List.filter is_post tr.

Fixpoint bodies (tr : list event) : list blob :=
  match tr with
  | [] => []
  | Post _ _ (Some b) :: rest => b :: bodies rest
  | _ :: rest => bodies rest
  end.

(** [blob.size] and [blob.slice(start, end)]: the offsets are clamped to the
    blob, a negative one counts from the end. *)
Definition size (file : blob) : Z := Z.of_nat (length file).

Definition clamp (file : blob) (offset : Z) : Z :=
  if (offset <? 0)%Z then Z.max (size file + offset) 0
  else Z.min offset (size file).

Definition slice (file : blob) (start : Z) (end_ : option Z) : blob :=
  let s := clamp file start in
  let e := match end_ with Some e => clamp file e | None => size file end in
  let span := Z.max (e - s) 0 in
  firstn (Z.to_nat span) (skipn (Z.to_nat s) file).

Inductive CheckinType : Type := Minor | Major | Overwrite.

Definition CheckinType_value (t : CheckinType) : Z :=
  match t with
  | Minor => 0
  | Major => 1
  | Overwrite => 2
  end.

Definition comment_too_long : error :=
  Error "The maximum comment length is 1023 characters.".

Section File.

(** [escapeQueryStrValue] of [../utils/escapeSingleQuote]. *)
Variable escapeQueryStrValue : string → string.

(** The server: what a request resolves to, given everything done so far
    (the request included), and the number [startUpload] and
    [continueUpload] read from it (directly, or under the [StartUpload] or
    [ContinueUpload] key of a verbose payload). *)
Variable Response : Type.
Variable server : list event → Response.
Variable uploaded_total : Response → Z.

(** [getGUID()]. *)
Variable getGUID : string.

(** [parseInt((a / b).toString(), 10)]: the digits before the point or the
    exponent mark of the decimal rendering of the quotient. For a quotient
    between 1e-6 and 1e21 that is its integer part; a smaller or larger one
    is rendered with an exponent, and only the leading digits are read. *)
Variable parseInt_quotient : Z → Z → Z.

(** Modelled from the spec: [spPost] of [../operations] is not among the
    sources. Section 4.3: an invocation creates exactly one request, which
    is sent and resolves to the server's answer. This is
    [spPost(this.clone(File, path, inheritQuery), { body })]. *)
Definition spPost (path : string) (inheritQuery : bool) (body : option blob)
    : F Response :=
  fun tr =>
    let tr' := (tr ++ [Post path inheritQuery body])%list in
    (Ret (server tr'), tr').

(** The progress callback of the caller: its calls are recorded. *)
Definition progress (data : IFileUploadProgressData) : F unit :=
  fun tr => (Ret tt, (tr ++ [Progress data])%list).

Definition checkin (comment : string) (checkinType : CheckinType)
    : F Response :=
  if (1023 <? String.length comment)%nat then
    throw comment_too_long
  else
    spPost ("checkin(comment='" ++ escapeQueryStrValue comment
            ++ "',checkintype=" ++ pretty (CheckinType_value checkinType)
            ++ ")") true None.

Definition deny (comment : string) : F Response :=
  if (1023 <? String.length comment)%nat then
    throw comment_too_long
  else
    spPost ("deny(comment='" ++ escapeQueryStrValue comment ++ "')")
      true None.

Definition publish (comment : string) : F Response :=
  if (1023 <? String.length comment)%nat then
    throw comment_too_long
  else
    spPost ("publish(comment='" ++ escapeQueryStrValue comment ++ "')")
      true None.

Definition unpublish (comment : string) : F Response :=
  if (1023 <? String.length comment)%nat then
    throw comment_too_long
  else
    spPost ("unpublish(comment='" ++ escapeQueryStrValue comment ++ "')")
      true None.

Definition startUpload_path (id : string) : string :=
  "startUpload(uploadId=guid'" ++ id ++ "')".

Definition continueUpload_path (id : string) (fileOffset : Z) : string :=
  "continueUpload(uploadId=guid'" ++ id ++ "',fileOffset="
  ++ pretty fileOffset ++ ")".

Definition finishUpload_path (id : string) (fileOffset : Z) : string :=
  "finishUpload(uploadId=guid'" ++ id ++ "',fileOffset="
  ++ pretty fileOffset ++ ")".

Definition startUpload (id : string) (fragment : blob) : F Z :=
  let! n := spPost (startUpload_path id) false (Some fragment) in
  ret (uploaded_total n).

Definition continueUpload (id : string) (fileOffset : Z) (fragment : blob)
    : F Z :=
  let! n := spPost (continueUpload_path id fileOffset) false (Some fragment) in
  ret (uploaded_total n).

(** The [data] of the [IFileAddResult]; its [file] is the node built from
    [odataUrlFrom(response)]. *)
Definition finishUpload (id : string) (fileOffset : Z) (fragment : blob)
    : F Response :=
  spPost (finishUpload_path id fileOffset) false (Some fragment).

Definition blockCount (file : blob) (chunk : Z) : Z :=
  (parseInt_quotient (size file) chunk
   + (if Z.rem (size file) chunk =? 0 then 1 else 0))%Z.

(** The loop [for (let i = 2; i < blockCount; i++)]: [n] blocks are left to
    continue with, the next one is block [i]. *)
Fixpoint continue_blocks (file : blob) (chunk count : Z) (id : string)
    (n : nat) (i : Z) (pointer : Z) : F Z :=
  match n with
  | O => ret pointer
  | S n' =>
      run! progress {| uploadId := id; blockNumber := i; chunkSize := chunk;
                       currentPointer := pointer; fileSize := size file;
                       stage := continue; totalBlocks := count |} in
      let! pointer' :=
        continueUpload id pointer
          (slice file pointer (Some (pointer + chunk)%Z)) in
      continue_blocks file chunk count id n' (i + 1)%Z pointer'
  end.

Definition setContentChunked (file : blob) (chunk : Z) : F Response :=
  let count := blockCount file chunk in
  let id := getGUID in
  (* start the chain with the first fragment *)
  run! progress {| uploadId := id; blockNumber := 1; chunkSize := chunk;
                   currentPointer := 0; fileSize := size file;
                   stage := starting; totalBlocks := count |} in
  let! first := startUpload id (slice file 0 (Some chunk)) in
  (* skip the first and last blocks *)
  let! pointer :=
    continue_blocks file chunk count id (Z.to_nat (count - 2)) 2 first in
  run! progress {| uploadId := id; blockNumber := count; chunkSize := chunk;
                   currentPointer := pointer; fileSize := size file;
                   stage := finishing; totalBlocks := count |} in
  finishUpload id pointer (slice file pointer None).

End File.

(** The [continueUpload] requests that send the fragments [frags] one after
    the other from [offset] on, each at the offset where the one before it
    ended. *)
Fixpoint continues_from (id : string) (offset : Z) (frags : list blob)
    : list event :=
  match frags with
  | [] => []
  | frag :: rest =>
      Post (continueUpload_path id offset) false (Some frag)
      :: continues_from id (offset + size frag)%Z rest
  end.

(** An upload session: the first fragment is started with, the middle ones
    are continued with, the last one is finished with. *)
Definition session (id : string) (first : blob) (middle : list blob)
    (last : blob) : list event :=
  Post (startUpload_path id) false (Some first)
  :: continues_from id (size first) middle
  ++ [Post (finishUpload_path id (size (first ++ concat middle))) false
        (Some last)].

(** The state of a session under way: the fragment [first] was started
    with, further ones were continued with, and together they are the first
    [pointer] bytes of the file. *)
Definition uploading (id : string) (file first : blob) (tr : list event)
    (pointer : Z) : Prop :=
  ∃ middle,
    posts tr
      = Post (startUpload_path id) false (Some first)
        :: continues_from id (size first) middle ∧
    bodies tr = first :: middle ∧
    (first ++ concat middle)%list = firstn (Z.to_nat pointer) file ∧
    (0 ≤ pointer ≤ size file)%Z.

(** A server for the examples: it answers with the number of bytes it has
    received. *)
Definition counting_server (tr : list event) : Z :=
  Z.of_nat (length (concat (bodies tr))).

(** An [escapeQueryStrValue] for the examples: every single quote is
    doubled, which is what the name of its module (escapeSingleQuote) says. *)
Fixpoint double_single_quotes (s : string) : string :=
  match s with
  | EmptyString => EmptyString
  | String c rest =>
      if Ascii.eqb c "'" then String c (String c (double_single_quotes rest))
      else String c (double_single_quotes rest)
  end.

(** [parseInt_quotient] where the rendering has no exponent. *)
Definition integer_part (a b : Z) : Z := Z.quot a b.

(** A comment of 1024 characters, and files of 25, 30 and 5 bytes. *)
Definition long_comment : string := String.concat "" (repeat "x" 1024).

Definition file25 : blob := list_byte_of_string "abcdefghijklmnopqrstuvwxy".
Definition file30 : blob := list_byte_of_string "abcdefghijklmnopqrstuvwxyz0123".
Definition file5 : blob := list_byte_of_string "abcde".

End Files.

Module SiteUsers.

(** [_SiteUsers.getByLoginName]: the text appended by
    [SiteUser(this).concat(...)]. *)
Definition getByLoginName (loginName : string) : string :=
  "('!@v::" ++ encodeURIComponent loginName ++ "')".

(** [_SiteUsers.removeByLoginName]: the clone gets the login name as the
    query parameter [@v] and is posted. *)
Definition removeByLoginName (this : Queryable.loc) (loginName : string)
    (h : Queryable.heap) : option (Queryable.Request * Queryable.heap) :=
  match Queryable.clone this "removeByLoginName(@v)" true h with
  | Some (o, h1) =>
      match
        Queryable.query_set o "@v"
          ("'" ++ encodeURIComponent loginName ++ "'") h1
      with
      | Some h2 =>
          match Queryable.spPost o h2 with
          | Some r => Some (r, h2)
          | None => None
          end
      | None => None
      end
  | None => None
  end.

End SiteUsers.


(** ** Canvas ordering helpers ([packages/sp/src/clientsidepages.ts]) *)

Module ClientSidePages.

(** The [order] of a canvas item is a number kept in some object: a
    [CanvasSection] keeps it in a field of its own, a [CanvasColumn] reads and
    writes [json.position.sectionIndex], a control
    [json.position.controlIndex]. The store holds these numbers, one per
    location; two items whose [json] is the same object have the same
    location. *)
Abbreviation loc := nat.
Abbreviation store := (gmap loc Z).

(** An orderable item: where its order is kept, and its own properties
    [columns] and [controls] when it has them. *)
Inductive item : Type :=
  | Item (order_cell : loc)
         (columns : option (list item))
         (controls : option (list item)).

Definition order_cell (it : item) : loc :=
  match it with Item c _ _ => c end.

(** [it.order]. *)
Definition order (st : store) (it : item) : Z := st !!! order_cell it.

(** [it.order = value]. *)
Definition set_order (it : item) (val : Z) (st : store) : store :=
  <[order_cell it := val]> st.

(** [Math.max.apply(null, values)] for a list that is not empty. *)
Definition Math_max (values : list Z) : Z :=
  match values with
  | [] => 0%Z
  | v :: rest => fold_left Z.max rest v
  end.

Definition getNextOrder (st : store) (collection : list item) : Z :=
  if (length collection <? 1)%nat then 1%Z
  else (Math_max (map (order st) collection) + 1)%Z.

(** The body of the loop of [reindex] for the item at index [i]; the inner
    loops are the recursive calls of [reindex] on the item's columns, or
    else on its controls. *)
Fixpoint reindex_at (i : Z) (it : item) (st : store) : store :=
  match it with
  | Item cell columns controls =>
      let st := <[cell := (i + 1)%Z]> st in
      match columns with
      | Some cols =>
          (fix loop (collection : list item) (j : Z) (st : store) : store :=
             match collection with
             | [] => st
             | x :: rest => loop rest (j + 1)%Z (reindex_at j x st)
             end) cols 0%Z st
      | None =>
          match controls with
          | Some ctrls =>
              (fix loop (collection : list item) (j : Z) (st : store)
                 : store :=
                 match collection with
                 | [] => st
                 | x :: rest => loop rest (j + 1)%Z (reindex_at j x st)
                 end) ctrls 0%Z st
          | None => st
          end
      end
  end.

(** The loop [for (let i = 0; i < collection.length; i++)] from index [i]. *)
Fixpoint reindex_loop (collection : list item) (i : Z) (st : store) : store :=
  match collection with
  | [] => st
  | x :: rest => reindex_loop rest (i + 1)%Z (reindex_at i x st)
  end.

Definition reindex (collection : list item) (st : store) : store :=
  reindex_loop collection 0%Z st.

(** [CanvasColumn.Default.position.sectionIndex]: the one location behind
    the order of every column constructed without [json]. *)
Definition CanvasColumn_Default : loc := 0.

(** [new CanvasColumn(json)]: [json] defaults to [CanvasColumn.Default]
    itself, [controls] to a new empty array. *)
Definition CanvasColumn (json : option loc) : item :=
  Item (default CanvasColumn_Default json) None (Some []).

(** [CanvasSection.addColumn]: the new column gets the next order and is
    pushed onto the section's columns. ([column.factor = factor] writes
    another field of the same [json] and is left out.) *)
Definition addColumn (columns : list item) (st : store)
    : item * list item * store :=
  let column := CanvasColumn None in
  let st := set_order column (getNextOrder st columns) st in
  (column, (columns ++ [column])%list, st).

(** The store when the module is loaded: the default column data has
    [sectionIndex: 1]. *)
Definition initial_store : store := <[CanvasColumn_Default := 1%Z]> ∅.




(** The orders are normalized: the item at index [i] has order [i + 1], and
    so have, from index 0, the items of its columns and of its controls. *)
Fixpoint normalized_at (st : store) (i : Z) (it : item) : Prop :=
  match it with
  | Item cell columns controls =>
      st !!! cell = (i + 1)%Z ∧
      match columns with
      | Some cols =>
          (fix all (l : list item) (j : Z) : Prop :=
             match l with
             | [] => True
             | x :: r => normalized_at st j x ∧ all r (j + 1)%Z
             end) cols 0%Z
      | None => True
      end ∧
      match controls with
      | Some ctrls =>
          (fix all (l : list item) (j : Z) : Prop :=
             match l with
             | [] => True
             | x :: r => normalized_at st j x ∧ all r (j + 1)%Z
             end) ctrls 0%Z
      | None => True
      end
  end.

Fixpoint normalized_from (st : store) (i : Z) (collection : list item)
    : Prop :=
  match collection with
  | [] => True
  | x :: rest => normalized_at st i x ∧ normalized_from st (i + 1)%Z rest
  end.

Definition normalized (st : store) (collection : list item) : Prop :=
  normalized_from st 0%Z collection.

(** A page of the examples: one section (order kept at 10) with two columns
    of their own data (20, 21), the first with two controls (30, 31). *)
Definition sample_sections : list item :=
  [Item 10
     (Some [Item 20 None (Some [Item 30 None None; Item 31 None None]);
            Item 21 None (Some [])])
     None].

Definition sample_store : store :=
  <[10 := 7%Z]>
  (<[20 := 3%Z]> (<[21 := 3%Z]> (<[30 := 5%Z]> (<[31 := 1%Z]> ∅)))).

End ClientSidePages.

(** ** The batch coordinator *)

Module Batching.

(** Modelled from the spec: the batch coordinator ([batch] of [@pnp/odata])
    is not among the sources, only its ordering tests are. Sections 3, 4.4
    and 5: a batch is [Open] while it accepts registrations; [execute]
    serializes the registered requests in registration order, sends one
    outbound call, settles the member promises in registration order, and
    resolves its own completion promise only after every member callback
    has run; after [execute] the batch is spent, and registering on it or
    executing it again is a [BatchStateError]. *)
Inductive BatchState : Type := Open | Executing | Completed | Failed.

Inductive BatchError : Type :=
  | BatchStateError
  | EnvelopeError (status : Z).

Inductive result (A : Type) : Type :=
  | Done (a : A)
  | Raised (e : BatchError).
Arguments Done {A} a.
Arguments Raised {A} e.

(** A [then] callback of the ordering tests: [order.push(k)]. *)
Abbreviation callback := nat.

(** A pending request: its sequence id in the batch and the callback its
    caller attached to the promise. *)
Record PendingRequest : Type := { seq_id : nat; on_fulfilled : callback }.

Record Batch : Type :=
  { state : BatchState; requests : list PendingRequest }.

(** What happens, in the order in which it happens. *)
Inductive event : Type :=
  | Sent (n : nat)
  | Settled (seq_id : nat)
  | Scheduled (seq_id : nat)
  | Ran (seq_id : nat)
  | Rejected (seq_id : nat) (e : BatchError)
  | BatchSettled
  | BatchRan
  | BatchRejected (e : BatchError).

(** A queued microtask: a member's callback, or the batch's own. *)
Inductive task : Type :=
  | MemberCallback (seq_id : nat) (cb : callback)
  | BatchCallback (cb : callback).

(** The event loop as the tests see it: the microtask queue, the [order]
    array the callbacks push onto, and the events so far. *)
Record World : Type :=
  { queue : list task; order : list nat; trace : list event }.

Definition new_world : World := {| queue := []; order := []; trace := [] |}.

(** Modelled from the spec: [createBatch()] gives an open, empty batch. *)
Definition createBatch : Batch := {| state := Open; requests := [] |}.

Definition log (e : event) (w : World) : World :=
  {| queue := queue w; order := order w; trace := trace w ++ [e] |}.

Definition enqueue (t : task) (w : World) : World :=
  {| queue := queue w ++ [t]; order := order w; trace := trace w |}.

(** Modelled from the spec: [node.inBatch(batch)().then(cb)]. The request
    is registered under the next sequence id (section 4.4, step 1); a batch
    that is no longer open refuses it (section 5). *)
Definition inBatch (cb : callback) (b : Batch) : result Batch :=
  match state b with
  | Open =>
      Done {| state := Open;
              requests :=
                requests b
                ++ [{| seq_id := length (requests b); on_fulfilled := cb |}] |}
  | _ => Raised BatchStateError
  end.

(** Modelled from the spec: one microtask runs; the callback pushes its
    number onto [order], as the callbacks of the tests do. *)
Definition run_task (w : World) (t : task) : World :=
  match t with
  | MemberCallback i cb =>
      log (Ran i)
        {| queue := queue w; order := order w ++ [cb]; trace := trace w |}
  | BatchCallback cb =>
      log BatchRan
        {| queue := queue w; order := order w ++ [cb]; trace := trace w |}
  end.

(** Modelled from the spec: the event loop drains the queue in the order in
    which the tasks were queued (section 5). *)
Definition drain (w : World) : World :=
  fold_left run_task (queue w)
    {| queue := []; order := order w; trace := trace w |}.

(** Modelled from the spec: the response is demultiplexed by position
    (section 4.4, steps 4 and 5); each member promise is settled, and its
    callback scheduled, before the next one is looked at. *)
Fixpoint demultiplex (reqs : list PendingRequest) (w : World) : World :=
  match reqs with
  | [] => w
  | r :: rest =>
      demultiplex rest
        (log (Scheduled (seq_id r))
           (enqueue (MemberCallback (seq_id r) (on_fulfilled r))
              (log (Settled (seq_id r)) w)))
  end.

(** Modelled from the spec: a failed envelope rejects every member with
    the same error (section 4.4, Failure). *)
Fixpoint reject_all (e : BatchError) (reqs : list PendingRequest) (w : World)
    : World :=
  match reqs with
  | [] => w
  | r :: rest => reject_all e rest (log (Rejected (seq_id r) e) w)
  end.

(** Modelled from the spec: [batch.execute().then(done)]; [envelope] is the
    outcome of the one outbound call ([None] when it went through, the
    status when it failed). An open batch is executed to the end, so that
    the state [Executing] is never seen from outside; a batch in any other
    state refuses. *)
Definition execute (done : callback) (envelope : option Z) (b : Batch)
    (w : World) : result (Batch * World) :=
  match state b with
  | Open =>
      let w := log (Sent (length (requests b))) w in
      match envelope with
      | None =>
          let w := drain (demultiplex (requests b) w) in
          let w := drain (enqueue (BatchCallback done) (log BatchSettled w)) in
          Done ({| state := Completed; requests := requests b |}, w)
      | Some status =>
          let e := EnvelopeError status in
          let w := log (BatchRejected e) (reject_all e (requests b) w) in
          Done ({| state := Failed; requests := requests b |}, w)
      end
  | _ => Raised BatchStateError
  end.

(** The calls of one ordering test: the callbacks are registered one after
    the other on a new batch, which is then executed. *)
Fixpoint register_all (cbs : list callback) (b : Batch) : result Batch :=
  match cbs with
  | [] => Done b
  | cb :: rest =>
      match inBatch cb b with
      | Done b' => register_all rest b'
      | Raised e => Raised e
      end
  end.

Definition ordering_test (cbs : list callback) (done : callback)
    : result (Batch * World) :=
  match register_all cbs createBatch with
  | Done b => execute done None b new_world
  | Raised e => Raised e
  end.

(** The requests and the queued callbacks of [cbs], numbered from [start]
    on. *)
Fixpoint numbered (start : nat) (cbs : list callback) : list PendingRequest :=
  match cbs with
  | [] => []
  | cb :: rest =>
      {| seq_id := start; on_fulfilled := cb |} :: numbered (S start) rest
  end.

Fixpoint member_tasks (start : nat) (cbs : list callback) : list task :=
  match cbs with
  | [] => []
  | cb :: rest => MemberCallback start cb :: member_tasks (S start) rest
  end.

(** The events of a batch of [n] members that went well. *)
Definition settle_events (n : nat) : list event :=
  flat_map (fun i => [Settled i; Scheduled i]) (seq 0 n).

Definition expected_trace (n : nat) : list event :=
  [Sent n] ++ settle_events n ++ map Ran (seq 0 n) ++ [BatchSettled; BatchRan].

(** [e1] happens before [e2] in a trace. *)
Definition before (e1 e2 : event) (tr : list event) : Prop :=
  ∃ l1 l2 l3, tr = (l1 ++ e1 :: l2 ++ e2 :: l3)%list.

(** The batch of the single-request test, before and after [execute]. *)
Definition single_batch : Batch :=
  {| state := Open; requests := numbered 0 [1] |}.

Definition spent_batch : Batch :=
  {| state := Completed; requests := numbered 0 [1] |}.

Definition spent_world : World :=
  {| queue := []; order := [1; 2]; trace := expected_trace 1 |}.

End Batching.
(** * Properties *)

Module ODataFacts.
Import OData.

Section Parser.

Variable combine : list value → outcome string.
Variable extractWebUrl : value → outcome string.
Variable factory : string → value → outcome object.
Variable Response : Type.
Variable super_parse : Response → M object.

(** The parser's functions at these collaborators. *)

Local Abbreviation url_parts := (OData.url_parts extractWebUrl).
Local Abbreviation odataUrlFrom := (OData.odataUrlFrom combine extractWebUrl).
Local Abbreviation hydrate := (OData.hydrate combine extractWebUrl factory).
Local Abbreviation parse := (OData.parse combine extractWebUrl factory Response super_parse).

(** *** What [odataUrlFrom] reads *)

Lemma hOP_ext (d1 d2 : object) (k : string) :
  d1 !! k = d2 !! k → hOP d1 k = hOP d2 k.
Proof. unfold hOP. intros ->. reflexivity. Qed.

Lemma prop_ext (d1 d2 : object) (k : string) :
  d1 !! k = d2 !! k → prop d1 k = prop d2 k.
Proof. unfold prop. intros ->. reflexivity. Qed.

Lemma url_parts_ext (d1 d2 : object) :
  d1 !! s0 = d2 !! s0 → d1 !! s1 = d2 !! s1 →
  d1 !! s2 = d2 !! s2 → d1 !! s3 = d2 !! s3 →
  url_parts d1 = url_parts d2.
Proof.
  intros H0 H1 H2 H3. unfold OData.url_parts.
  rewrite (hOP_ext _ _ _ H0), (hOP_ext _ _ _ H1), (hOP_ext _ _ _ H2),
    (hOP_ext _ _ _ H3).
  rewrite (prop_ext _ _ _ H0), (prop_ext _ _ _ H1), (prop_ext _ _ _ H2),
    (prop_ext _ _ _ H3).
  reflexivity.
Qed.

Lemma odataUrlFrom_ext (d1 d2 : object) :
  d1 !! s0 = d2 !! s0 → d1 !! s1 = d2 !! s1 →
  d1 !! s2 = d2 !! s2 → d1 !! s3 = d2 !! s3 →
  odataUrlFrom d1 = odataUrlFrom d2.
Proof.
  intros H0 H1 H2 H3. unfold OData.odataUrlFrom.
  rewrite (url_parts_ext d1 d2 H0 H1 H2 H3). reflexivity.
Qed.

Lemma lookup_assign (target source : object) (k : string) :
  assign target source !! k =
  match source !! k with Some v => Some v | None => target !! k end.
Proof.
  unfold assign. rewrite lookup_union.
  destruct (source !! k), (target !! k); reflexivity.
Qed.

Lemma assign_twice (target source : object) :
  assign target (assign target source) = assign target source.
Proof.
  apply map_eq. intros k. rewrite !lookup_assign.
  destruct (source !! k), (target !! k); reflexivity.
Qed.

(** *** The URL computed for each metadata convention *)

(** C2 (as the code has it). [odataUrlFrom] never reads [odata.id]. For a
    payload that is not a web it joins the web URL extracted from
    [odata.metadata], the segment [_api] and [odata.editLink] when both fields
    are present (minimal metadata); [_api] and [odata.editLink] when only the
    edit link is present (a URL relative to the web); and [__metadata.uri]
    alone when there is no edit link (verbose). For a web the edit link, or
    else [__metadata.uri], is taken as it is. With neither an edit link nor
    [__metadata] it logs a warning and returns the empty string. The parser
    builds the node from that URL and merges the payload onto it. *)
Theorem odataUrlFrom_by_convention (d : object) (r : Response) :
  (∀ v, odataUrlFrom (<["odata.id" := v]> d) = odataUrlFrom d) ∧
  (is_web d = false → hOP d s3 = true → hOP d s1 = true →
     odataUrlFrom d =
     (let! w := lift (extractWebUrl (prop d s3)) in
      lift (combine [VStr w; VStr "_api"; prop d s1]))) ∧
  (is_web d = false → hOP d s3 = false → hOP d s1 = true →
     odataUrlFrom d = lift (combine [VStr "_api"; prop d s1])) ∧
  (is_web d = true → hOP d s1 = true →
     odataUrlFrom d = lift (combine [prop d s1])) ∧
  (hOP d s1 = false → hOP d s2 = true →
     odataUrlFrom d =
     (let! u := lift (member (prop d s2) "uri") in lift (combine [u]))) ∧
  (hOP d s1 = false → hOP d s2 = false →
     odataUrlFrom d = (Ret "", [no_uri_entry])) ∧
  parse r = (let! p := super_parse r in hydrate p).
Proof.
  repeat split.
  - intros v. apply odataUrlFrom_ext; apply lookup_insert_ne; discriminate.
  - unfold is_web, OData.odataUrlFrom, OData.url_parts. intros -> -> ->. simpl.
    destruct (extractWebUrl (prop d s3)); reflexivity.
  - unfold is_web, OData.odataUrlFrom, OData.url_parts. intros -> -> ->. simpl.
    destruct (combine _); reflexivity.
  - unfold is_web, OData.odataUrlFrom, OData.url_parts. intros -> ->. simpl.
    destruct (combine _); reflexivity.
  - unfold OData.odataUrlFrom, OData.url_parts. intros -> ->.
    rewrite andb_false_r.
    destruct (hOP d s0 && strict_eq_str (prop d s0) "SP.Web");
      destruct (member (prop d s2) "uri"); reflexivity.
  - unfold OData.odataUrlFrom, OData.url_parts. intros -> ->.
    rewrite andb_false_r.
    destruct (hOP d s0 && strict_eq_str (prop d s0) "SP.Web"); reflexivity.
Qed.

(** *** Hydration *)

Lemma hydrate_inv (d h : object) (w : list LogEntry) :
  hydrate d = (Ret h, w) →
  ∃ url o w1,
    odataUrlFrom d = (Ret url, w1) ∧ factory url VNull = Ret o ∧
    h = assign o d ∧ w = w1.
Proof.
  unfold OData.hydrate, bind, lift, ret.
  destruct (odataUrlFrom d) as [[url|e] w1]; [|discriminate].
  destruct (factory url VNull) as [o|e] eqn:Hf; [|discriminate].
  intros [= <- <-]. exists url, o, w1.
  rewrite !app_nil_r. repeat split; [exact Hf|reflexivity..].
Qed.

(** C3. Hydrating an already hydrated object computes the same URL and
    gives the same object again: the same own properties, node state and
    payload alike, and nothing nested. *)
Theorem hydrate_idempotent (d h : object) (w : list LogEntry) :
  node_props_apart_from_odata factory →
  hydrate d = (Ret h, w) →
  odataUrlFrom h = odataUrlFrom d ∧ hydrate h = (Ret h, w).
Proof.
  intros Hnode Hd.
  destruct (hydrate_inv d h w Hd) as (url & o & w1 & Hurl & Hf & -> & ->).
  assert (Hsame : odataUrlFrom (assign o d) = odataUrlFrom d).
  { apply odataUrlFrom_ext; rewrite lookup_assign;
      (destruct (d !! _); [reflexivity|]);
      apply (Hnode url VNull o); auto;
      unfold s0, s1, s2, s3; rewrite !elem_of_cons; auto. }
  split; [exact Hsame|].
  unfold OData.hydrate. rewrite Hsame, Hurl. unfold bind, lift, ret.
  rewrite Hf, assign_twice, !app_nil_r. reflexivity.
Qed.

(** C4 (as the code has it). When the payload has neither [odata.editLink]
    nor [__metadata], [odataUrlFrom] logs a warning and returns the empty
    string; [hydrate] and [parse] hand that empty URL to the node constructor
    and merge the payload onto the node it returns. The parser raises no
    error of its own. *)
Theorem hydrate_without_uri_information (d : object) :
  hOP d s1 = false → hOP d s2 = false →
  odataUrlFrom d = (Ret "", [no_uri_entry]) ∧
  hydrate d =
  match factory "" VNull with
  | Ret o => (Ret (assign o d), [no_uri_entry])
  | Throw e => (Throw e, [no_uri_entry])
  end.
Proof.
  intros H1 H2.
  assert (Hurl : odataUrlFrom d = (Ret "", [no_uri_entry])).
  { unfold OData.odataUrlFrom, OData.url_parts. rewrite H1, H2, andb_false_r.
    destruct (hOP d s0 && strict_eq_str (prop d s0) "SP.Web"); reflexivity. }
  split; [exact Hurl|].
  unfold OData.hydrate. rewrite Hurl. unfold bind, lift, ret.
  destruct (factory "" VNull); reflexivity.
Qed.

End Parser.

Example odataUrlFrom_minimal :
  odataUrlFrom combine_paths web_url_of minimal_payload = (Ret list_uri, []).
Proof. vm_compute. reflexivity. Qed.

Example odataUrlFrom_verbose :
  odataUrlFrom combine_paths web_url_of verbose_payload = (Ret list_uri, []).
Proof. vm_compute. reflexivity. Qed.

Lemma SharePointQueryable_props_apart_from_odata :
  node_props_apart_from_odata SharePointQueryable.
Proof.
  intros url path o k. unfold SharePointQueryable.
  destruct (combine_paths _) as [u|e]; simpl; [|discriminate].
  intros [= <-] Hk.
  repeat (apply elem_of_cons in Hk as [-> | Hk]; [reflexivity|]).
  by apply elem_of_nil in Hk.
Qed.

(** C2, on the list of the examples: minimal and verbose metadata lead to
    the same absolute URL, and changing [odata.id] changes nothing. *)
Lemma odataUrlFrom_by_convention_witness :
  odataUrlFrom combine_paths web_url_of minimal_payload = (Ret list_uri, []) ∧
  odataUrlFrom combine_paths web_url_of
    (<["odata.id" := VNull]> minimal_payload) = (Ret list_uri, []).
Proof.
  destruct (odataUrlFrom_by_convention combine_paths web_url_of SharePointQueryable
              unit (fun _ => ret minimal_payload) minimal_payload tt)
    as (Hid & Hminimal & _).
  split.
  - rewrite Hminimal; reflexivity.
  - rewrite Hid, Hminimal; reflexivity.
Defined.

(** C2 fails as stated: a payload that exposes [odata.id] alone gets no URL
    at all, and one with [odata.id] and [odata.editLink] (no
    [odata.metadata]) gets a URL relative to the web, not an absolute one. *)
Lemma odata_id_is_not_consulted :
  exposes_identity id_only_payload = true ∧
  odataUrlFrom combine_paths web_url_of id_only_payload
    = (Ret "", [no_uri_entry]) ∧
  exposes_identity id_editLink_payload = true ∧
  odataUrlFrom combine_paths web_url_of id_editLink_payload
    = (Ret "_api/Web/Lists(guid'51a0c1f3')", []) ∧
  isUrlAbsolute "_api/Web/Lists(guid'51a0c1f3')" = false.
Proof. repeat split; vm_compute; reflexivity. Qed.

(** C3, on the list of the examples. *)
Lemma hydrate_idempotent_witness :
  odataUrlFrom combine_paths web_url_of hydrated_list
    = odataUrlFrom combine_paths web_url_of minimal_payload ∧
  hydrate combine_paths web_url_of SharePointQueryable hydrated_list
    = (Ret hydrated_list, []).
Proof.
  apply (hydrate_idempotent combine_paths web_url_of SharePointQueryable
           minimal_payload hydrated_list []).
  - exact SharePointQueryable_props_apart_from_odata.
  - vm_compute. reflexivity.
Defined.

(** C4, on a payload without annotations. *)
Lemma hydrate_without_uri_information_witness :
  odataUrlFrom combine_paths web_url_of plain_payload
    = (Ret "", [no_uri_entry]) ∧
  hydrate combine_paths web_url_of SharePointQueryable plain_payload
    = (Ret (assign empty_url_node plain_payload), [no_uri_entry]).
Proof.
  apply (hydrate_without_uri_information combine_paths web_url_of SharePointQueryable
           plain_payload); reflexivity.
Defined.

(** C4 fails as stated: hydrating a payload without identity fields throws
    nothing; it returns a node whose URL is the empty string, after one
    warning in the log. *)
Lemma hydrate_builds_node_on_empty_url :
  hydrate combine_paths web_url_of SharePointQueryable plain_payload
    = (Ret (<["Title" := VStr "Documents"]> empty_url_node), [no_uri_entry]) ∧
  prop (<["Title" := VStr "Documents"]> empty_url_node) "_url" = VStr "".
Proof. split; vm_compute; reflexivity. Qed.

End ODataFacts.

(** C5 (the code breaks it). [getByName] places the name between the quotes
    as it is: a quote, a space or a hash in the name reaches the URL
    unescaped, and the segment is malformed. [getByLoginName] escapes the
    login name with [encodeURIComponent], which handles the space and the
    hash and leaves a quote alone. *)
Theorem getByName_embeds_name_unescaped :
  SiteGroups.getByName "O'Brien & Sons #1" = "getByName('O'Brien & Sons #1')" ∧
  escaped_segment (SiteGroups.getByName "O'Brien & Sons #1") = false ∧
  escaped_segment (SiteGroups.getByName "Team #1") = false ∧
  Files.getByName "Bob's report.docx" = "('Bob's report.docx')" ∧
  escaped_segment (Files.getByName "Bob's report.docx") = false ∧
  escaped_segment (SiteGroups.getByName "Owners") = true ∧
  SiteUsers.getByLoginName "i:0#.f|membership|a b@contoso.com"
    = "('!@v::i%3A0%23.f%7Cmembership%7Ca%20b%40contoso.com')" ∧
  escaped_segment
    (SiteUsers.getByLoginName "i:0#.f|membership|a b@contoso.com") = true ∧
  escaped_segment (SiteUsers.getByLoginName "o'brien@contoso.com") = false.
Proof. repeat split; vm_compute; reflexivity. Qed.

(** ** Cloning a node *)

Module QueryableFacts.
Import Queryable.

Lemma clone_inv (this : loc) (seg : string) (inh : bool) (h : heap)
    (o : loc) (h1 : heap) :
  clone this seg inh h = Some (o, h1) →
  ∃ u p q lq,
    h !! this = Some (Node u p q) ∧ (lq ∉ dom h) ∧ (o ∉ dom h) ∧ (o ≠ lq) ∧
    h1 = <[o := Node (combine2 u seg) u lq]>
           (<[lq := QueryMap (if inh then query_entries h q else ∅)]> h).
Proof.
  unfold clone. destruct (h !! this) as [[u p q|m]|] eqn:Hthis; try discriminate.
  intros [= <- <-]. exists u, p, q, (fresh (dom h)).
  pose proof (is_fresh (dom h)) as Hlq.
  set (h1 := <[fresh (dom h) := QueryMap
    (if inh then query_entries h q else ∅)]> h).
  pose proof (is_fresh (dom h1)) as Hln.
  set (ln := fresh (dom h1)) in *.
  assert (Hdom : dom h1 = {[fresh (dom h)]} ∪ dom h) by apply dom_insert_L.
  rewrite Hdom in Hln.
  split; [reflexivity|]. split; [exact Hlq|].
  split; [|split; [|reflexivity]].
  - intros Hin. apply Hln. apply elem_of_union. right. exact Hin.
  - intros Heq. apply Hln. apply elem_of_union. left.
    apply elem_of_singleton. exact Heq.
Qed.

Lemma lookup_allocated (h : heap) (l fresh1 fresh2 : loc) (x y : heap_object) :
  l ∈ dom h → fresh1 ∉ dom h → fresh2 ∉ dom h →
  (<[fresh1 := x]> (<[fresh2 := y]> h)) !! l = h !! l.
Proof.
  intros Hl H1 H2.
  rewrite !lookup_insert_ne; [reflexivity| |]; intros ->; contradiction.
Qed.

Lemma clone_then_set (this : loc) (seg key val : string) (inh : bool)
    (h : heap) (o : loc) (h1 h2 : heap) :
  clone this seg inh h = Some (o, h1) →
  query_set o key val h1 = Some h2 →
  ∃ u p q,
    h !! this = Some (Node u p q) ∧
    toUrl h2 o = Some (combine2 u seg) ∧
    query_of h1 o = Some (if inh then query_entries h q else ∅) ∧
    query_of h2 o
      = Some (<[key := val]> (if inh then query_entries h q else ∅)) ∧
    ∀ l, l ∈ dom h → h2 !! l = h !! l.
Proof.
  intros Hclone Hset.
  destruct (clone_inv _ _ _ _ _ _ Hclone)
    as (u & p & q & lq & Hthis & Hlq & Ho & Hne & ->).
  exists u, p, q. split; [exact Hthis|].
  unfold query_set in Hset. rewrite lookup_insert_eq in Hset.
  injection Hset as <-.
  set (entries := if inh then query_entries h q else ∅) in *.
  assert (Hold : query_entries (<[o := Node (combine2 u seg) u lq]>
           (<[lq := QueryMap entries]> h)) lq = entries).
  { unfold query_entries at 1.
    rewrite lookup_insert_ne by exact Hne. rewrite lookup_insert_eq.
    reflexivity. }
  rewrite Hold.
  assert (Hne' : lq ≠ o) by (intros Heq; apply Hne; symmetry; exact Heq).
  split; [|split; [|split]].
  - unfold toUrl. rewrite lookup_insert_ne by exact Hne'.
    rewrite lookup_insert_eq. reflexivity.
  - unfold query_of. rewrite lookup_insert_eq, Hold. reflexivity.
  - unfold query_of. rewrite lookup_insert_ne by exact Hne'.
    rewrite lookup_insert_eq. unfold query_entries.
    rewrite lookup_insert_eq. reflexivity.
  - intros l Hl. rewrite lookup_insert_ne by (intros ->; contradiction).
    apply lookup_allocated; assumption.
Qed.

(** C6. The clone's query map starts as a copy of the parent's; setting a
    parameter on the clone is seen by the clone and changes no object that
    existed before the clone was made, so the parent (and every ancestor)
    keeps its URL and its query. *)
Theorem clone_query_is_a_copy (this : loc) (seg key val : string)
    (h : heap) (o : loc) (h1 h2 : heap) :
  node_allocated h this →
  clone this seg true h = Some (o, h1) →
  query_set o key val h1 = Some h2 →
  query_of h1 o = query_of h this ∧
  query_of h2 o = (insert key val <$> query_of h this) ∧
  (∀ l, l ∈ dom h → h2 !! l = h !! l) ∧
  toUrl h2 this = toUrl h this ∧
  query_of h2 this = query_of h this.
Proof.
  intros Hwf Hclone Hset.
  destruct (clone_then_set _ _ _ _ _ _ _ _ _ Hclone Hset)
    as (u & p & q & Hthis & _ & Hq1 & Hq2 & Hframe).
  unfold node_allocated in Hwf. rewrite Hthis in Hwf.
  assert (Hq : q ∈ dom h) by (apply elem_of_dom; exact Hwf).
  assert (Hthis_dom : this ∈ dom h) by (apply elem_of_dom; eauto).
  assert (Hparent : query_of h this = Some (query_entries h q)).
  { unfold query_of. rewrite Hthis. reflexivity. }
  rewrite Hq1, Hq2, Hparent.
  split; [reflexivity|]. split; [reflexivity|]. split; [exact Hframe|].
  unfold toUrl, query_of, query_entries.
  rewrite (Hframe this Hthis_dom), Hthis, (Hframe q Hq). split; reflexivity.
Qed.

(** C6, on the site users collection of the examples. *)
Lemma clone_query_is_a_copy_witness :
  toUrl updated_heap 1 = toUrl siteusers_heap 1 ∧
  query_of updated_heap 1 = query_of siteusers_heap 1 ∧
  query_of updated_heap 3
    = Some (<["@v" := "'i%3A0%23.f%7Cmembership%7Cadele'"]>
            (<["$select" := "Title"]> ∅)).
Proof.
  destruct (clone_query_is_a_copy 1 "removeByLoginName(@v)" "@v"
              "'i%3A0%23.f%7Cmembership%7Cadele'"
              siteusers_heap 3 cloned_heap updated_heap)
    as (_ & Hclone & _ & Hurl & Hquery).
  - unfold node_allocated. vm_compute. eauto.
  - vm_compute. reflexivity.
  - vm_compute. reflexivity.
  - split; [exact Hurl|]. split; [exact Hquery|].
    rewrite Hclone. vm_compute. reflexivity.
Defined.

(** [removeByLoginName] posts the clone, with the login name as [@v], and
    leaves every object that existed before untouched. *)
Lemma removeByLoginName_leaves_parent (this : loc) (loginName : string)
    (h h' : heap) (r : Request) :
  SiteUsers.removeByLoginName this loginName h = Some (r, h') →
  (∀ l, l ∈ dom h → h' !! l = h !! l) ∧
  method r = "POST" ∧
  params r !! "@v" = Some ("'" ++ encodeURIComponent loginName ++ "'") ∧
  ∃ u, toUrl h this = Some u ∧
       target r = combine2 u "removeByLoginName(@v)".
Proof.
  unfold SiteUsers.removeByLoginName.
  destruct (clone this _ true h) as [[o h1]|] eqn:Hclone; [|discriminate].
  destruct (query_set o _ _ h1) as [h2|] eqn:Hset; [|discriminate].
  destruct (clone_then_set _ _ _ _ _ _ _ _ _ Hclone Hset)
    as (u & p & q & Hthis & Ho & _ & Hq2 & Hframe).
  unfold spPost. rewrite Ho, Hq2. intros [= <- <-].
  split; [exact Hframe|]. split; [reflexivity|]. split.
  - simpl. apply lookup_insert_eq.
  - exists u. unfold toUrl. rewrite Hthis. split; reflexivity.
Qed.

Example removeByLoginName_on_siteusers :
  SiteUsers.removeByLoginName 1 "i:0#.f|membership|adele" siteusers_heap
  = Some ({| method := "POST";
             target := "https://contoso.sharepoint.com/_api/web/siteusers/removeByLoginName(@v)";
             params := <["@v" := "'i%3A0%23.f%7Cmembership%7Cadele'"]>
                       (<["$select" := "Title"]> ∅) |},
          updated_heap).
Proof. vm_compute. reflexivity. Qed.

End QueryableFacts.

(** ** File operations *)

Module FilesFacts.
Import Files.

Section File.

Variable escapeQueryStrValue : string → string.
Variable Response : Type.
Variable server : list event → Response.
Variable uploaded_total : Response → Z.
Variable getGUID : string.
Variable parseInt_quotient : Z → Z → Z.

(** The operations at these collaborators. *)

Local Abbreviation checkin := (Files.checkin escapeQueryStrValue Response server).
Local Abbreviation deny := (Files.deny escapeQueryStrValue Response server).
Local Abbreviation publish := (Files.publish escapeQueryStrValue Response server).
Local Abbreviation unpublish := (Files.unpublish escapeQueryStrValue Response server).
Local Abbreviation setContentChunked :=
  (Files.setContentChunked Response server uploaded_total getGUID
     parseInt_quotient).
Local Abbreviation continue_blocks :=
  (Files.continue_blocks Response server uploaded_total).

(** C8. A comment of more than 1023 characters makes [checkin], [deny],
    [publish] and [unpublish] throw before anything is sent: the trace is
    unchanged. With a comment of at most 1023 characters each of them adds
    exactly one request to the trace, the POST to its own endpoint, and
    resolves to the server's answer. *)
Theorem comment_length_guard (comment : string) (t : CheckinType)
    (tr : list event) :
  ((1023 < String.length comment)%nat →
     checkin comment t tr = (Throw comment_too_long, tr) ∧
     deny comment tr = (Throw comment_too_long, tr) ∧
     publish comment tr = (Throw comment_too_long, tr) ∧
     unpublish comment tr = (Throw comment_too_long, tr)) ∧
  ((String.length comment ≤ 1023)%nat →
     let sent path :=
       (Ret (server (tr ++ [Post path true None])%list),
        (tr ++ [Post path true None])%list) in
     checkin comment t tr
       = sent ("checkin(comment='" ++ escapeQueryStrValue comment
               ++ "',checkintype=" ++ pretty (CheckinType_value t) ++ ")") ∧
     deny comment tr
       = sent ("deny(comment='" ++ escapeQueryStrValue comment ++ "')") ∧
     publish comment tr
       = sent ("publish(comment='" ++ escapeQueryStrValue comment ++ "')") ∧
     unpublish comment tr
       = sent ("unpublish(comment='" ++ escapeQueryStrValue comment ++ "')")).
Proof.
  unfold Files.checkin, Files.deny, Files.publish, Files.unpublish.
  split.
  - intros Hlong.
    assert (Hguard : (1023 <? String.length comment)%nat = true)
      by (apply Nat.ltb_lt; exact Hlong).
    rewrite Hguard. repeat split.
  - intros Hshort.
    assert (Hguard : (1023 <? String.length comment)%nat = false)
      by (apply Nat.ltb_ge; exact Hshort).
    rewrite Hguard. repeat split.
Qed.

(** *** Traces and slices *)

Lemma posts_app (tr1 tr2 : list event) :
  posts (tr1 ++ tr2) = (posts tr1 ++ posts tr2)%list.
Proof. apply List.filter_app. Qed.

Lemma bodies_app (tr1 tr2 : list event) :
  bodies (tr1 ++ tr2) = (bodies tr1 ++ bodies tr2)%list.
Proof.
  induction tr1 as [|[path inh [b|]|d] tr1 IH]; simpl; rewrite ?IH; reflexivity.
Qed.

Lemma size_app (a b : blob) : size (a ++ b) = (size a + size b)%Z.
Proof. unfold size. rewrite length_app. lia. Qed.

Lemma continues_from_app (id : string) (offset : Z) (frags : list blob)
    (frag : blob) :
  continues_from id offset (frags ++ [frag])
  = (continues_from id offset frags
     ++ [Post (continueUpload_path id (offset + size (concat frags))) false
           (Some frag)])%list.
Proof.
  revert offset. induction frags as [|f frags IH]; intros offset; simpl.
  - unfold size. simpl. rewrite Z.add_0_r. reflexivity.
  - rewrite IH, size_app, Z.add_assoc. reflexivity.
Qed.

Lemma take_all_taken {A} (k : nat) (l : list A) :
  take k l = take (length (take k l)) l.
Proof.
  rewrite length_take. destruct (Nat.le_gt_cases k (length l)) as [Hle|Hgt].
  - rewrite Nat.min_l by exact Hle. reflexivity.
  - rewrite Nat.min_r by lia. rewrite !take_ge by lia. reflexivity.
Qed.

Lemma slice_from (file : blob) (p : Z) (e : option Z) :
  (0 ≤ p ≤ size file)%Z →
  (take (Z.to_nat p) file ++ slice file p e)%list
    = take (Z.to_nat (p + size (slice file p e))) file ∧
  (p + size (slice file p e) ≤ size file)%Z.
Proof.
  intros Hp. unfold slice, clamp.
  assert (Hneg : (p <? 0)%Z = false) by (apply Z.ltb_ge; lia).
  rewrite Hneg, Z.min_l by lia.
  match goal with |- context [firstn ?k (skipn _ _)] => generalize k end.
  intros k. split.
  - rewrite (take_all_taken k (drop (Z.to_nat p) file)) at 1.
    rewrite take_take_drop. f_equal. unfold size. lia.
  - unfold size in *. rewrite length_take, length_drop. lia.
Qed.

Lemma slice_rest (file : blob) (p : Z) :
  (0 ≤ p ≤ size file)%Z → slice file p None = drop (Z.to_nat p) file.
Proof.
  intros Hp. unfold slice, clamp.
  assert (Hneg : (p <? 0)%Z = false) by (apply Z.ltb_ge; lia).
  rewrite Hneg, Z.min_l by lia.
  apply take_ge. rewrite length_drop. unfold size in *. lia.
Qed.

Lemma size_take_pointer (file : blob) (p : Z) :
  (0 ≤ p ≤ size file)%Z → size (take (Z.to_nat p) file) = p.
Proof. intros Hp. unfold size in *. rewrite length_take. lia. Qed.

(** *** The chain of uploads *)

(** The server answers [startUpload] and [continueUpload] with the running
    total of the bytes uploaded so far. *)
Hypothesis running_total :
  ∀ tr, uploaded_total (server tr) = size (concat (bodies tr)).

Lemma continue_blocks_uploading (file first : blob) (chunk count : Z)
    (n : nat) :
  ∀ (i : Z) (tr : list event) (pointer : Z),
    uploading getGUID file first tr pointer →
    ∃ tr' pointer',
      continue_blocks file chunk count getGUID n i pointer tr
        = (Ret pointer', tr') ∧
      uploading getGUID file first tr' pointer'.
Proof.
  induction n as [|n IH]; intros i tr pointer Hup.
  - exists tr, pointer. split; [reflexivity|exact Hup].
  - destruct Hup as (middle & Hposts & Hbodies & Hcat & Hp).
    set (frag := slice file pointer (Some (pointer + chunk)%Z)).
    set (d := {| uploadId := getGUID; blockNumber := i; chunkSize := chunk;
                 currentPointer := pointer; fileSize := size file;
                 stage := continue; totalBlocks := count |}).
    set (tr2 := ((tr ++ [Progress d])
                 ++ [Post (continueUpload_path getGUID pointer) false
                       (Some frag)])%list).
    assert (Hb2 : bodies tr2 = first :: (middle ++ [frag])%list).
    { unfold tr2. rewrite !bodies_app, Hbodies. simpl.
      rewrite app_nil_r. reflexivity. }
    destruct (slice_from file pointer (Some (pointer + chunk)%Z) Hp)
      as [Hslice Hbound]. fold frag in Hslice, Hbound.
    assert (Hsize : size (first ++ concat middle) = pointer).
    { rewrite Hcat. apply size_take_pointer. exact Hp. }
    assert (Hup2 : uploading getGUID file first tr2 (pointer + size frag)).
    { exists (middle ++ [frag])%list. split; [|split; [exact Hb2|split]].
      - unfold tr2. rewrite !posts_app, Hposts. simpl. rewrite app_nil_r.
        rewrite continues_from_app, <- size_app, Hsize. reflexivity.
      - rewrite concat_app. simpl. rewrite app_nil_r, app_assoc, Hcat.
        exact Hslice.
      - unfold size in *. lia. }
    destruct (IH (i + 1)%Z tr2 (pointer + size frag)%Z Hup2)
      as (tr' & pointer' & Hrun & Hup').
    exists tr', pointer'. split; [|exact Hup'].
    simpl. unfold bind, progress, Files.continueUpload, bind, spPost, ret.
    fold d. fold frag. fold tr2.
    rewrite running_total, Hb2.
    replace (size (concat (first :: (middle ++ [frag])%list)))
      with (pointer + size frag)%Z; [exact Hrun|].
    simpl. rewrite concat_app. simpl.
    rewrite app_nil_r, app_assoc, size_app, Hsize. reflexivity.
Qed.

(** C9. When the server answers with the running total, [setContentChunked]
    resolves, and its requests are one upload session: [startUpload] with the
    first fragment, [continueUpload] with the ones in the middle, each at the
    offset where the one before it ended, and [finishUpload] with the last
    one at the offset where the middle ended. The fragments, put end to end,
    are the file. *)
Theorem setContentChunked_uploads_whole_file (file : blob) (chunk : Z) :
  (0 < chunk)%Z →
  ∃ middle last tr,
    let first := slice file 0 (Some chunk) in
    setContentChunked file chunk [] = (Ret (server tr), tr) ∧
    posts tr = session getGUID first middle last ∧
    (first ++ concat middle ++ last)%list = file.
Proof.
  intros _.
  set (count := blockCount parseInt_quotient file chunk).
  set (first := slice file 0 (Some chunk)).
  set (d0 := {| uploadId := getGUID; blockNumber := 1; chunkSize := chunk;
                currentPointer := 0; fileSize := size file;
                stage := starting; totalBlocks := count |}).
  set (tr1 := [Progress d0; Post (startUpload_path getGUID) false (Some first)]).
  assert (H0 : (0 ≤ 0 ≤ size file)%Z) by (unfold size; lia).
  destruct (slice_from file 0 (Some chunk) H0) as [Hslice Hbound].
  fold first in Hslice, Hbound. simpl in Hslice.
  assert (Hup1 : uploading getGUID file first tr1 (size first)).
  { exists []. split; [reflexivity|split; [reflexivity|split]].
    - simpl. rewrite app_nil_r. exact Hslice.
    - unfold size in *. lia. }
  destruct (continue_blocks_uploading file first chunk count
              (Z.to_nat (count - 2)) 2 tr1 (size first) Hup1)
    as (tr2 & pointer & Hrun & (middle & Hposts & Hbodies & Hcat & Hp)).
  set (last := slice file pointer None).
  set (d1 := {| uploadId := getGUID; blockNumber := count; chunkSize := chunk;
                currentPointer := pointer; fileSize := size file;
                stage := finishing; totalBlocks := count |}).
  set (tr3 := ((tr2 ++ [Progress d1])
               ++ [Post (finishUpload_path getGUID pointer) false
                     (Some last)])%list).
  exists middle, last, tr3. simpl. split; [|split].
  - unfold Files.setContentChunked, bind, progress, Files.startUpload, bind,
      spPost, ret, Files.finishUpload, spPost.
    simpl. fold count. fold first. fold d0. fold tr1.
    rewrite running_total. simpl. rewrite app_nil_r.
    rewrite Hrun. reflexivity.
  - unfold tr3. rewrite !posts_app, Hposts. simpl. rewrite app_nil_r.
    unfold session.
    rewrite Hcat, size_take_pointer by exact Hp. reflexivity.
  - unfold last. rewrite slice_rest by exact Hp.
    rewrite app_assoc, Hcat. apply take_drop.
Qed.

End File.

(** C8, on a comment of 1024 characters and on a short one. *)
Lemma comment_length_guard_witness :
  Files.checkin double_single_quotes Z counting_server long_comment Major []
    = (Throw comment_too_long, []) ∧
  Files.deny double_single_quotes Z counting_server "It's not ready" []
    = (Ret 0%Z, [Post "deny(comment='It''s not ready')" true None]).
Proof.
  split.
  - apply (comment_length_guard double_single_quotes Z counting_server
             long_comment Major []).
    apply Nat.ltb_lt. vm_compute. reflexivity.
  - apply (comment_length_guard double_single_quotes Z counting_server
             "It's not ready" Major []).
    apply Nat.leb_le. vm_compute. reflexivity.
Defined.

Lemma counting_server_running_total (tr : list event) :
  counting_server tr = size (concat (bodies tr)).
Proof. reflexivity. Qed.

(** C9, on a file of 25 bytes sent in chunks of 10. *)
Lemma setContentChunked_uploads_whole_file_witness :
  ∃ middle last tr,
    let first := slice file25 0 (Some 10%Z) in
    Files.setContentChunked Z counting_server (fun n => n) "b2c5"
      integer_part file25 10 []
      = (Ret (counting_server tr), tr) ∧
    posts tr = session "b2c5" first middle last ∧
    (first ++ concat middle ++ last)%list = file25.
Proof.
  apply (setContentChunked_uploads_whole_file Z counting_server (fun n => n)
           "b2c5" integer_part counting_server_running_total file25 10).
  lia.
Defined.

(** The sessions [setContentChunked] runs: a last fragment longer than the
    chunk, a file that is a multiple of the chunk, and a file smaller than
    one chunk. *)
Example setContentChunked_25_by_10 :
  posts (snd (Files.setContentChunked Z counting_server (fun n => n) "b2c5"
                integer_part file25 10 []))
  = session "b2c5" (list_byte_of_string "abcdefghij") []
      (list_byte_of_string "klmnopqrstuvwxy").
Proof. vm_compute. reflexivity. Qed.

Example setContentChunked_30_by_10 :
  posts (snd (Files.setContentChunked Z counting_server (fun n => n) "b2c5"
                integer_part file30 10 []))
  = session "b2c5" (list_byte_of_string "abcdefghij")
      [list_byte_of_string "klmnopqrst"; list_byte_of_string "uvwxyz0123"]
      [].
Proof. vm_compute. reflexivity. Qed.

Example setContentChunked_5_by_10 :
  posts (snd (Files.setContentChunked Z counting_server (fun n => n) "b2c5"
                integer_part file5 10 []))
  = session "b2c5" (list_byte_of_string "abcde") [] [].
Proof. vm_compute. reflexivity. Qed.

(** A file of 5 bytes sent in chunks of 10485760: the quotient is rendered
    with an exponent (4.76837158203125e-7) and [parseInt] reads 4 from it, so
    that two empty fragments are continued with. *)
Example setContentChunked_5_by_default_chunk :
  posts (snd (Files.setContentChunked Z counting_server (fun n => n) "b2c5"
                (fun _ _ => 4%Z) file5 10485760 []))
  = session "b2c5" (list_byte_of_string "abcde") [[]; []] [].
Proof. vm_compute. reflexivity. Qed.

End FilesFacts.

(** ** Canvas ordering helpers *)

Module ClientSidePagesFacts.
Import ClientSidePages.

#[local] Open Scope Z_scope.

Lemma fold_max_ge_start (rest : list Z) (v : Z) : v ≤ fold_left Z.max rest v.
Proof.
  revert v. induction rest as [|x rest IH]; intros v; simpl; [lia|].
  specialize (IH (Z.max v x)). lia.
Qed.

Lemma fold_max_ge (rest : list Z) (v x : Z) :
  In x rest → x ≤ fold_left Z.max rest v.
Proof.
  revert v. induction rest as [|y rest IH]; intros v; simpl; [tauto|].
  intros [->|Hin]; [|apply IH; exact Hin].
  pose proof (fold_max_ge_start rest (Z.max v x)). lia.
Qed.

Lemma fold_max_attained (rest : list Z) (v : Z) :
  In (fold_left Z.max rest v) (v :: rest).
Proof.
  revert v. induction rest as [|y rest IH]; intros v; simpl; [tauto|].
  destruct (IH (Z.max v y)) as [Heq|Hin]; [|tauto].
  rewrite <- Heq. destruct (Z.max_spec v y) as [[_ ->]|[_ ->]]; tauto.
Qed.

(** [getNextOrder] gives 1 for an empty collection and otherwise one more
    than the greatest order in it, which is an order of the collection; so
    it is greater than the order of every item. *)
Lemma getNextOrder_exceeds_every_order (st : store) (collection : list item) :
  getNextOrder st [] = 1 ∧
  (collection ≠ [] →
     ∃ top, top ∈ collection ∧
            getNextOrder st collection = order st top + 1 ∧
            ∀ it, it ∈ collection → order st it ≤ order st top) ∧
  (∀ it, it ∈ collection → order st it < getNextOrder st collection).
Proof.
  split; [reflexivity|].
  destruct collection as [|x rest]; [split; [congruence|]|].
  { intros it Hin. by apply elem_of_nil in Hin. }
  assert (Hge : ∀ it, it ∈ x :: rest →
            order st it ≤ Math_max (map (order st) (x :: rest))).
  { intros it Hin. simpl. apply elem_of_cons in Hin as [->|Hin].
    - apply fold_max_ge_start.
    - apply fold_max_ge, in_map, list_elem_of_In. exact Hin. }
  assert (Hnext : getNextOrder st (x :: rest)
                  = Math_max (map (order st) (x :: rest)) + 1) by reflexivity.
  split.
  - intros _.
    pose proof (fold_max_attained (map (order st) rest) (order st x)) as Hin.
    change (In (Math_max (map (order st) (x :: rest)))
              (map (order st) (x :: rest))) in Hin.
    apply in_map_iff in Hin as (top & Htop & Hin).
    exists top. split; [apply list_elem_of_In; exact Hin|].
    rewrite Hnext, Htop. split; [reflexivity|]. exact Hge.
  - intros it Hin. rewrite Hnext. specialize (Hge it Hin). lia.
Qed.

(** *** [reindex] on items that share nothing *)















(** C10 (the code breaks it). Two columns added to a section with
    [addColumn] keep their order in the one default object: both read 2
    before [reindex], and both read 2 after it, where the first should
    read 1. *)
Theorem reindex_columns_sharing_default :
  let '(_, columns1, st1) := addColumn [] initial_store in
  let '(_, columns2, st2) := addColumn columns1 st1 in
  map order_cell columns2 = [CanvasColumn_Default; CanvasColumn_Default] ∧
  map (order st2) columns2 = [2; 2] ∧
  map (order (reindex columns2 st2)) columns2 = [2; 2] ∧
  ¬ normalized (reindex columns2 st2) columns2.
Proof.
  vm_compute. repeat split; try reflexivity.
  intros [[H _] _]. discriminate H.
Qed.

Example reindex_sample_sections :
  let st := reindex sample_sections sample_store in
  map (fun c => st !!! c) [10; 20; 21; 30; 31]%nat = [1; 1; 2; 1; 2].
Proof. vm_compute. reflexivity. Qed.

End ClientSidePagesFacts.

(** ** The batch coordinator *)

Module BatchingFacts.
Import Batching.

#[local] Open Scope list_scope.

Lemma register_all_open (cbs : list callback) (b : Batch) :
  state b = Open →
  register_all cbs b
  = Done {| state := Open;
            requests := requests b ++ numbered (length (requests b)) cbs |}.
Proof.
  revert b. induction cbs as [|cb cbs IH]; intros [st reqs] Hopen;
    simpl in *; subst st.
  - rewrite app_nil_r. reflexivity.
  - unfold inBatch. simpl. rewrite IH by reflexivity. simpl.
    rewrite length_app, <- app_assoc. simpl.
    rewrite Nat.add_1_r. reflexivity.
Qed.

Lemma demultiplex_numbered (cbs : list callback) :
  ∀ (start : nat) (w : World),
    demultiplex (numbered start cbs) w
    = {| queue := queue w ++ member_tasks start cbs;
         order := order w;
         trace := trace w
                  ++ flat_map (fun i => [Settled i; Scheduled i])
                       (seq start (length cbs)) |}.
Proof.
  induction cbs as [|cb cbs IH]; intros start [q o tr]; simpl.
  - rewrite !app_nil_r. reflexivity.
  - rewrite IH. unfold log, enqueue. simpl.
    rewrite <- !app_assoc. reflexivity.
Qed.

Lemma run_member_tasks (cbs : list callback) :
  ∀ (start : nat) (w : World),
    fold_left run_task (member_tasks start cbs) w
    = {| queue := queue w;
         order := order w ++ cbs;
         trace := trace w ++ map Ran (seq start (length cbs)) |}.
Proof.
  induction cbs as [|cb cbs IH]; intros start [q o tr]; simpl.
  - rewrite !app_nil_r. reflexivity.
  - rewrite IH. unfold log. simpl. rewrite <- !app_assoc. reflexivity.
Qed.

Lemma ordering_test_runs (cbs : list callback) (done : callback) :
  ordering_test cbs done
  = Done ({| state := Completed; requests := numbered 0 cbs |},
          {| queue := [];
             order := cbs ++ [done];
             trace := expected_trace (length cbs) |}).
Proof.
  unfold ordering_test. rewrite register_all_open by reflexivity.
  unfold execute, createBatch, new_world. simpl.
  rewrite demultiplex_numbered. unfold drain, log, enqueue. simpl.
  rewrite run_member_tasks. simpl.
  assert (Hlen : length (numbered 0 cbs) = length cbs).
  { generalize 0%nat. induction cbs as [|cb cbs IH]; intros n; simpl;
      [reflexivity|]. rewrite IH. reflexivity. }
  rewrite Hlen. unfold expected_trace, settle_events, log. simpl.
  rewrite <- !app_assoc. reflexivity.
Qed.

Lemma seq_split (n i : nat) :
  i < n → seq 0 n = seq 0 i ++ i :: seq (S i) (n - S i).
Proof.
  intros Hi. replace n with (i + S (n - S i)) at 1 by lia.
  rewrite seq_app. reflexivity.
Qed.

Lemma scheduled_before_next_settled (n i : nat) :
  S i < n → before (Scheduled i) (Settled (S i)) (expected_trace n).
Proof.
  intros Hi. unfold expected_trace, settle_events, before.
  rewrite (seq_split n i) by lia.
  destruct (n - S i) as [|k] eqn:Hk; [lia|].
  rewrite flat_map_app. simpl.
  exists ([Sent n] ++ flat_map (fun i => [Settled i; Scheduled i]) (seq 0 i)
          ++ [Settled i]), [].
  eexists. rewrite <- !app_assoc. simpl. reflexivity.
Qed.

Lemma ran_before_batch_settled (n i : nat) :
  i < n → before (Ran i) BatchSettled (expected_trace n).
Proof.
  intros Hi. unfold expected_trace, before.
  rewrite (seq_split n i) by lia. rewrite map_app. simpl.
  exists ([Sent n] ++ settle_events n ++ map Ran (seq 0 i)),
    (map Ran (seq (S i) (n - S i))), [BatchRan].
  rewrite <- !app_assoc. simpl. reflexivity.
Qed.

(** C1. In a batch that goes well, whatever the number of registered
    requests, the [order] array of the tests ends as the registered numbers
    followed by the batch's; the callback of a member is scheduled before
    the promise of the next member is settled; and every member callback has
    run before the batch's own promise is settled. *)
Theorem batch_settles_in_registration_order (cbs : list callback)
    (done : callback) :
  ∃ b w,
    ordering_test cbs done = Done (b, w) ∧
    state b = Completed ∧
    order w = cbs ++ [done] ∧
    trace w = expected_trace (length cbs) ∧
    (∀ i, S i < length cbs → before (Scheduled i) (Settled (S i)) (trace w)) ∧
    (∀ i, i < length cbs → before (Ran i) BatchSettled (trace w)).
Proof.
  eexists _, _. split; [apply ordering_test_runs|]. simpl.
  split; [reflexivity|]. split; [reflexivity|]. split; [reflexivity|].
  split.
  - intros i Hi. apply scheduled_before_next_settled. exact Hi.
  - intros i Hi. apply ran_before_batch_settled. exact Hi.
Qed.

(** C1, on the test with an odd number of requests. *)
Lemma batch_settles_in_registration_order_witness :
  ∃ b w,
    ordering_test [1; 2; 3] 4 = Done (b, w) ∧
    order w = [1; 2; 3; 4] ∧
    before (Scheduled 0) (Settled 1) (trace w) ∧
    before (Ran 2) BatchSettled (trace w).
Proof.
  destruct (batch_settles_in_registration_order [1; 2; 3] 4)
    as (b & w & Hrun & _ & Horder & _ & Hnext & Hlast).
  exists b, w. split; [exact Hrun|]. split; [exact Horder|]. split.
  - apply Hnext. simpl. lia.
  - apply Hlast. simpl. lia.
Defined.

(** The three ordering tests. *)
Example ordering_single_request :
  ∃ b w, ordering_test [1] 2 = Done (b, w) ∧ order w = [1; 2].
Proof. eexists _, _. split; reflexivity. Qed.

Example ordering_even_number_of_requests :
  ∃ b w, ordering_test [1; 2; 3; 4] 5 = Done (b, w) ∧
         order w = [1; 2; 3; 4; 5].
Proof. eexists _, _. split; reflexivity. Qed.

Example ordering_odd_number_of_requests :
  ∃ b w, ordering_test [1; 2; 3] 4 = Done (b, w) ∧ order w = [1; 2; 3; 4].
Proof. eexists _, _. split; reflexivity. Qed.

(** C7. Once [execute] has been called on a batch, whether the envelope
    went through or failed, the batch is spent: registering on it and
    executing it again raise [BatchStateError], and nothing is sent. *)
Theorem spent_batch_refuses (done : callback) (envelope : option Z)
    (b b' : Batch) (w w' : World) :
  execute done envelope b w = Done (b', w') →
  (∀ cb, inBatch cb b' = Raised BatchStateError) ∧
  (∀ done' envelope' w'',
     execute done' envelope' b' w'' = Raised BatchStateError).
Proof.
  unfold execute.
  destruct (state b); try discriminate.
  destruct envelope; intros [= <- _]; split; reflexivity.
Qed.

(** C7, on the batch of the single-request test. *)
Lemma spent_batch_refuses_witness :
  inBatch 9 spent_batch = Raised BatchStateError ∧
  execute 9 None spent_batch spent_world = Raised BatchStateError.
Proof.
  destruct (spent_batch_refuses 2 None single_batch spent_batch new_world
              spent_world) as [Hregister Hexecute].
  - vm_compute. reflexivity.
  - split; [apply Hregister|apply Hexecute].
Defined.

End BatchingFacts.
